(** * The degeneracy-handling root stack of CGAL's kinetic framework

    A shallow embedding of [CGAL/Kinetic/Handle_degeneracy_function_kernel.h]:
    the class template [HDRS<Traits_t>] wraps the root stack of a function
    kernel; it re-issues the lower bound as a root when the function is
    negative right after it, and it keeps a root of even multiplicity on top
    for one extra [pop()].

    The template parameter [Traits_t] is an interface ([Class Traits]); the
    members of [HDRS] are the fields of a record; a non-const member function
    is a function from the object to the object; [std::cout] and the stream
    of [write] are strings that the output operators extend. *)

From Stdlib Require Import ZArith List String Ascii Bool Lia Floats DecimalString.
From Stdlib Require Import Uint63.
Import ListNotations.

Local Open Scope list_scope.
Local Open Scope string_scope.

(** ** What the header takes from elsewhere *)

(** [CGAL::Sign], the result type of the sign-between-roots functor. *)
Inductive Sign : Type := NEGATIVE | ZERO | POSITIVE.

(** [std::ostream], as the text written so far. *)
Definition ostream : Type := string.

(** [out << "literal"]. *)
Definition write_literal (out : ostream) (s : string) : ostream := out ++ s.

(** [out << std::endl]. *)
Definition endl (out : ostream) : ostream := out ++ String (ascii_of_nat 10) EmptyString.

(** The members of [Traits_t] that [HDRS] uses, with the operations of the
    types it names: [Traits_t::Root_stack] (called [Wrapped_solver] in the
    class) with [top], [pop], [empty], [estimate] and [operator<<];
    [Wrapped_solver::Root] with its default constructor, [operator>] and
    [operator<<]; [Traits_t::Function] with [operator<<]. *)
Class Traits : Type := {
  Function : Type;
  Root : Type;
  Root_stack : Type;
  (* Root() *)
  Root_default : Root;
  (* a > b on roots *)
  Root_gt : Root -> Root -> bool;
  (* k.root_stack_object(uf, lb, ub) *)
  root_stack_object : Function -> Root -> Root -> Root_stack;
  (* k.is_even_multiplicity_object(uf), a functor on roots *)
  is_even_multiplicity_object : Function -> Root -> bool;
  (* k.sign_between_roots_object(a, b), a functor on functions *)
  sign_between_roots_object : Root -> Root -> Function -> Sign;
  (* solver_.top(), solver_.pop(), solver_.empty(), solver_.estimate() *)
  rs_top : Root_stack -> Root;
  rs_pop : Root_stack -> Root_stack;
  rs_empty : Root_stack -> bool;
  rs_estimate : Root_stack -> float;
  (* out << solver_, out << uf, out << root *)
  rs_write : ostream -> Root_stack -> ostream;
  Function_write : ostream -> Function -> ostream;
  Root_write : ostream -> Root -> ostream
}.

(** ** The class [HDRS] *)

Section HDRS.

Context {Traits_t : Traits}.

(** The data members, in the order of their declaration. *)
Record HDRS : Type := mkHDRS {
  solver_ : Root_stack;
  extra_root_ : Root;
  one_even_ : bool;
  has_extra_ : bool;
  iem_ : Root -> bool
}.

(** [CGAL_expensive_precondition(solver_.top() > lb)]: evaluated only in
    builds that check expensive preconditions. *)
Definition expensive_precondition (uf : Function) (lb ub : Root) : bool :=
  Root_gt (rs_top (root_stack_object uf lb ub)) lb.

(** The sign the constructor reads: [k.sign_between_roots_object(lb,
    solver_.top())(uf)]. *)
Definition sn (uf : Function) (lb ub : Root) : Sign :=
  sign_between_roots_object lb (rs_top (root_stack_object uf lb ub)) uf.

(** The line the constructor writes in the NEGATIVE branch. *)
Definition degeneracy_line (cout : ostream) (uf : Function) (lb top : Root) : ostream :=
  endl (Root_write
          (write_literal
             (Root_write
                (write_literal
                   (Function_write (write_literal cout "Degeneracy for ") uf)
                   " between ")
                lb)
             " and ")
          top).

(** [HDRS(uf, lb, ub, k)], on the state [cout] of the standard output: the
    object built and the output after it.  The initialiser list names
    [solver_] and [iem_] only, and the body assigns [extra_root_] in the
    NEGATIVE branch only: in the other branch the member keeps [init], the
    value its default initialisation left, which is [Root()] for a class
    type and anything for a built-in type. *)
Definition HDRS_ctor (uf : Function) (lb ub init : Root) (cout : ostream) : HDRS * ostream :=
  let solver := root_stack_object uf lb ub in
  let iem := is_even_multiplicity_object uf in
  match sign_between_roots_object lb (rs_top solver) uf with
  | NEGATIVE =>
      (mkHDRS solver lb false true iem,
       degeneracy_line cout uf lb (rs_top solver))
  | _ =>
      (mkHDRS solver init false false iem, cout)
  end.

(** [top() const]. *)
Definition top (h : HDRS) : Root :=
  if has_extra_ h then extra_root_ h else rs_top (solver_ h).

(** The branch of [pop()] that a call takes. *)
Inductive pop_branch : Type := clear_extra | suppress_even | real_pop.

(** [pop()], returning the branch taken beside the new state. *)
Definition pop_step (h : HDRS) : pop_branch * HDRS :=
  if has_extra_ h then
    (clear_extra,
     mkHDRS (solver_ h) Root_default (one_even_ h) false (iem_ h))
  else if negb (one_even_ h) && iem_ h (rs_top (solver_ h)) then
    (suppress_even,
     mkHDRS (solver_ h) (extra_root_ h) true (has_extra_ h) (iem_ h))
  else
    (real_pop,
     mkHDRS (rs_pop (solver_ h)) (extra_root_ h) false (has_extra_ h) (iem_ h)).

Definition pop (h : HDRS) : HDRS := snd (pop_step h).

Definition branch_of_pop (h : HDRS) : pop_branch := fst (pop_step h).

(** [empty() const]. *)
Definition empty (h : HDRS) : bool :=
  negb (has_extra_ h) && rs_empty (solver_ h).

(** [estimate() const]. *)
Definition estimate (h : HDRS) : float := rs_estimate (solver_ h).

(** [write(out) const]. *)
Definition write (h : HDRS) (out : ostream) : ostream := rs_write out (solver_ h).

(** ** Calls on an object *)

(** The public member functions, and what a call returns. *)
Inductive method : Type :=
| m_top | m_pop | m_empty | m_estimate | m_write (out : ostream).

Inductive result : Type :=
| r_root (r : Root) | r_void | r_bool (b : bool)
| r_double (d : float) | r_stream (out : ostream).

(** A call: the object after it and the value returned.  The const member
    functions hand the object back as it was. *)
Definition call (m : method) (h : HDRS) : HDRS * result :=
  match m with
  | m_top => (h, r_root (top h))
  | m_pop => (pop h, r_void)
  | m_empty => (h, r_bool (empty h))
  | m_estimate => (h, r_double (estimate h))
  | m_write out => (h, r_stream (write h out))
  end.

(** [top()] and [pop()] are defined on a non-empty stack only. *)
Definition defined (m : method) (h : HDRS) : bool :=
  match m with
  | m_top | m_pop => negb (empty h)
  | _ => true
  end.

(** The states of an object built by the four-argument constructor and then
    used within the contract.  [HDRS(){}] sets no member; an object built by
    it is not usable before it is assigned, and is no state here. *)
Inductive reachable : HDRS -> Prop :=
| reach_ctor (uf : Function) (lb ub init : Root) (cout : ostream) :
    reachable (fst (HDRS_ctor uf lb ub init cout))
| reach_call (m : method) (h : HDRS) :
    reachable h -> defined m h = true -> reachable (fst (call m h)).

(** [n] calls of [pop()] in a row. *)
Fixpoint pops (n : nat) (h : HDRS) : HDRS :=
  match n with
  | O => h
  | S n' => pops n' (pop h)
  end.

(** [empty()] answers true after [n] calls of [pop()] and false after every
    smaller number of them. *)
Definition empty_after_exactly (h : HDRS) (n : nat) : Prop :=
  empty (pops n h) = true /\ forall k, (k < n)%nat -> empty (pops k h) = false.

(** The wrapped solver [s] holds the roots [rs], first root on top. *)
Fixpoint holds_roots (s : Root_stack) (rs : list Root) : Prop :=
  match rs with
  | [] => rs_empty s = true
  | r :: rs' => rs_empty s = false /\ rs_top s = r /\ holds_roots (rs_pop s) rs'
  end.

(** 1 when the constructor detects a degeneracy, else 0. *)
Definition degeneracy_count (uf : Function) (lb ub : Root) : nat :=
  match sn uf lb ub with NEGATIVE => 1 | _ => 0 end.

(** The number of roots of [rs] that the classifier of [uf] reports as roots
    of even multiplicity. *)
Definition even_count (uf : Function) (rs : list Root) : nat :=
  List.length (filter (is_even_multiplicity_object uf) rs).

End HDRS.

(** The count of [pop()] calls as section 8 of the specification words it,
    for a construction that meets the constructor's precondition: the roots
    the wrapped solver holds plus one for a detected degeneracy. *)
Definition empties_after_roots_plus_degeneracy (Traits_t : Traits) : Prop :=
  forall (uf : Function) (lb ub init : Root) (cout : ostream) (rs : list Root),
    expensive_precondition uf lb ub = true ->
    holds_roots (root_stack_object uf lb ub) rs ->
    empty_after_exactly (fst (HDRS_ctor uf lb ub init cout))
                        (List.length rs + degeneracy_count uf lb ub).

(** [Handle_degeneracy_function_kernel<Traits_t>::root_stack_object]. *)
Module Handle_degeneracy_function_kernel.
Definition root_stack_object {Traits_t : Traits}
    (f : Function) (lb ub init : Root) (cout : ostream) : HDRS * ostream :=
  HDRS_ctor f lb ub init cout.
End Handle_degeneracy_function_kernel.

(** ** A function kernel to run the class on

    Polynomials over the integers given by their linear factors, with a root
    stack that lists the roots strictly between the bounds in the order of
    the factors.  It stands for the kernels the library instantiates the
    class with; the examples below run [HDRS] on it. *)
Module Factored.

(** [leading * (x - r1)^m1 * ... * (x - rn)^mn], the roots in increasing
    order. *)
Record Polynomial : Type := mkPolynomial {
  leading : Z;
  factors : list (Z * nat)
}.

Definition roots_between (f : Polynomial) (lb ub : Z) : list Z :=
  filter (fun r => (lb <? r)%Z && (r <? ub)%Z) (map fst (factors f)).

Definition multiplicity (f : Polynomial) (r : Z) : nat :=
  fold_right (fun rm acc => if (fst rm =? r)%Z then (snd rm + acc)%nat else acc)
             O (factors f).

Definition is_even_multiplicity (f : Polynomial) (r : Z) : bool :=
  Nat.even (multiplicity f r).

(** [2^deg f] times the value of [f] at the midpoint of [a] and [b]. *)
Definition scaled_midpoint_value (a b : Z) (f : Polynomial) : Z :=
  (leading f *
   fold_right (fun rm acc => (a + b - 2 * fst rm) ^ Z.of_nat (snd rm) * acc)
              1 (factors f))%Z.

Definition sign_of (z : Z) : Sign :=
  match z with
  | Z0 => ZERO
  | Zpos _ => POSITIVE
  | Zneg _ => NEGATIVE
  end.

Definition sign_between_roots (a b : Z) (f : Polynomial) : Sign :=
  sign_of (scaled_midpoint_value a b f).

Definition string_of_Z (z : Z) : string := NilZero.string_of_int (Z.to_int z).

Definition float_of_Z (z : Z) : float :=
  if (z <? 0)%Z then PrimFloat.opp (PrimFloat.of_uint63 (Uint63.of_Z (- z)))
  else PrimFloat.of_uint63 (Uint63.of_Z z).

Definition write_Z (out : ostream) (z : Z) : ostream :=
  (out ++ string_of_Z z)%string.

Definition write_roots (out : ostream) (s : list Z) : ostream :=
  fold_left (fun o r => (write_Z o r ++ " ")%string) s out.

Definition write_factor (o : ostream) (rm : Z * nat) : ostream :=
  (write_Z (write_Z (o ++ "(x - ") (fst rm) ++ ")^") (Z.of_nat (snd rm)))%string.

Definition write_Polynomial (out : ostream) (f : Polynomial) : ostream :=
  fold_left write_factor (factors f) (write_Z out (leading f)).

(** The kernel.  An empty list of roots answers [Root()] to [top()]. *)
Definition kernel : Traits := {|
  Function := Polynomial;
  Root := Z;
  Root_stack := list Z;
  Root_default := 0%Z;
  Root_gt := Z.gtb;
  root_stack_object := roots_between;
  is_even_multiplicity_object := is_even_multiplicity;
  sign_between_roots_object := sign_between_roots;
  rs_top := hd 0%Z;
  rs_pop := @tl Z;
  rs_empty := fun s => match s with [] => true | _ => false end;
  rs_estimate := fun s => float_of_Z (hd 0%Z s);
  rs_write := write_roots;
  Function_write := write_Polynomial;
  Root_write := write_Z
|}.

(** The object built for [f] on [(lb, ub)], with nothing written before and
    with 0 in the member that the constructor may leave unassigned. *)
Definition build (f : Polynomial) (lb ub : Z) : @HDRS kernel :=
  fst (@HDRS_ctor kernel f lb ub 0%Z EmptyString).

(** The roots seen by reading [top()] and calling [pop()] until [empty()],
    at most [fuel] times. *)
Fixpoint observe (fuel : nat) (h : @HDRS kernel) : list Z :=
  match fuel with
  | O => []
  | S fuel' => if empty h then [] else top h :: observe fuel' (pop h)
  end.

(** [(x - 2) (x - 5)]. *)
Definition scenario_A : Polynomial := mkPolynomial 1 [(2%Z, 1%nat); (5%Z, 1%nat)].
(** [(x + 1) (x - 3)]. *)
Definition scenario_B : Polynomial := mkPolynomial 1 [((-1)%Z, 1%nat); (3%Z, 1%nat)].
(** [- (x - 4)^2 (x - 7)]. *)
Definition scenario_C : Polynomial := mkPolynomial (-1) [(4%Z, 2%nat); (7%Z, 1%nat)].
(** [(x - 4)^2]. *)
Definition double_root : Polynomial := mkPolynomial 1 [(4%Z, 2%nat)].

End Factored.

(** ** A traversal of the stack *)

Section HDRS_traversal.

Context {Traits_t : Traits}.

(** [operator<<(std::ostream&, const HDRS<T>&)], the free function that
    closes the header: it calls [k.write(out)]. *)
Definition operator_shl (out : ostream) (k : HDRS) : ostream := write k out.

(** The object [h] holds the roots [rs] for its user, the way
    [holds_roots] says it of the wrapped solver: [empty()] is false while
    roots remain, [top()] is the next of them, [pop()] moves on. *)
Fixpoint HDRS_holds (h : HDRS) (rs : list Root) : Prop :=
  match rs with
  | [] => empty h = true
  | r :: rs' => empty h = false /\ top h = r /\ HDRS_holds (pop h) rs'
  end.

(** The first [n] calls of [pop()] on [h] are each made on a stack that is
    not empty, as the contract of [pop()] asks. *)
Fixpoint within_contract (n : nat) (h : HDRS) : bool :=
  match n with
  | O => true
  | S n' => negb (empty h) && within_contract n' (pop h)
  end.

(** [n] calls of [solver_.pop()] in a row. *)
Fixpoint rs_pops (n : nat) (s : Root_stack) : Root_stack :=
  match n with
  | O => s
  | S n' => rs_pops n' (rs_pop s)
  end.

(** The roots [rs] with every root that [iem] flags written twice. *)
Definition reported (iem : Root -> bool) (rs : list Root) : list Root :=
  flat_map (fun r => if iem r then [r; r] else [r]) rs.

(** The lower bound, when the constructor takes it as a root. *)
Definition extra_roots (uf : Function) (lb ub : Root) : list Root :=
  match sn uf lb ub with NEGATIVE => [lb] | _ => [] end.

(** How many calls of [pop()] can still leave the solver alone before one
    pops it: one to clear the extra root, one to flag the top. *)
Definition pending (h : HDRS) : nat :=
  (if has_extra_ h then 1 else 0) + (if one_even_ h then 0 else 1).

(** Every two neighbours of [l] are related by [R]. *)
Fixpoint adjacent (R : Root -> Root -> Prop) (l : list Root) : Prop :=
  match l with
  | a :: (b :: _) as t => R a b /\ adjacent R t
  | _ => True
  end.

(** [b] comes strictly after [a]. *)
Definition later (a b : Root) : Prop := Root_gt b a = true.

(** [b] comes strictly after [a], or it is [a] again and [iem] flags it. *)
Definition later_or_flagged (iem : Root -> bool) (a b : Root) : Prop :=
  Root_gt b a = true \/ (a = b /\ iem a = true).

End HDRS_traversal.

(** [(x + 1) (x - 3)^2 (x - 5)]: negative right after [-1], with a double
    root at 3. *)
Definition degenerate_double_root : Factored.Polynomial :=
  Factored.mkPolynomial 1 [((-1)%Z, 1%nat); (3%Z, 2%nat); (5%Z, 1%nat)].

(** ** Properties of the class, for every kernel *)

Section HDRS_properties.

Context {Traits_t : Traits}.

Implicit Types (h g : HDRS) (uf : Function) (lb ub init : Root) (cout : ostream).

(** *** The branches of [pop()] *)

Lemma pop_clear_extra h :
  has_extra_ h = true ->
  pop_step h =
  (clear_extra, mkHDRS (solver_ h) Root_default (one_even_ h) false (iem_ h)).
Proof. intros E. unfold pop_step. now rewrite E. Qed.

Lemma pop_suppress_even h :
  has_extra_ h = false -> one_even_ h = false ->
  iem_ h (rs_top (solver_ h)) = true ->
  pop_step h =
  (suppress_even, mkHDRS (solver_ h) (extra_root_ h) true false (iem_ h)).
Proof. intros E O I. unfold pop_step. now rewrite E, O, I. Qed.

Lemma pop_real_pop h :
  has_extra_ h = false ->
  one_even_ h = true \/ iem_ h (rs_top (solver_ h)) = false ->
  pop_step h =
  (real_pop, mkHDRS (rs_pop (solver_ h)) (extra_root_ h) false false (iem_ h)).
Proof.
  intros E [O | I]; unfold pop_step; rewrite E.
  - now rewrite O.
  - rewrite I. now rewrite andb_false_r.
Qed.

(** The branch taken, read back from the state before the call. *)
Lemma branch_of_pop_inv h :
  match branch_of_pop h with
  | clear_extra => has_extra_ h = true
  | suppress_even =>
      has_extra_ h = false /\ one_even_ h = false /\
      iem_ h (rs_top (solver_ h)) = true
  | real_pop =>
      has_extra_ h = false /\
      (one_even_ h = true \/ iem_ h (rs_top (solver_ h)) = false)
  end.
Proof.
  unfold branch_of_pop, pop_step.
  destruct (has_extra_ h); simpl; [reflexivity|].
  destruct (one_even_ h); simpl; [now auto|].
  destruct (iem_ h (rs_top (solver_ h))); simpl; now auto.
Qed.

Lemma pop_keeps_iem h : iem_ (pop h) = iem_ h.
Proof.
  unfold pop, pop_step.
  destruct (has_extra_ h); [reflexivity|].
  now destruct (negb (one_even_ h) && iem_ h (rs_top (solver_ h))).
Qed.

Lemma pop_has_extra h : has_extra_ (pop h) = false.
Proof.
  unfold pop, pop_step.
  destruct (has_extra_ h) eqn:E; [reflexivity|].
  now destruct (negb (one_even_ h) && iem_ h (rs_top (solver_ h))).
Qed.

(** *** The constructor *)

Lemma ctor_one_even uf lb ub init cout :
  one_even_ (fst (HDRS_ctor uf lb ub init cout)) = false.
Proof.
  unfold HDRS_ctor.
  now destruct (sign_between_roots_object lb (rs_top (root_stack_object uf lb ub)) uf).
Qed.

Lemma ctor_solver uf lb ub init cout :
  solver_ (fst (HDRS_ctor uf lb ub init cout)) = root_stack_object uf lb ub.
Proof.
  unfold HDRS_ctor.
  now destruct (sign_between_roots_object lb (rs_top (root_stack_object uf lb ub)) uf).
Qed.

Lemma ctor_iem uf lb ub init cout :
  iem_ (fst (HDRS_ctor uf lb ub init cout)) = is_even_multiplicity_object uf.
Proof.
  unfold HDRS_ctor.
  now destruct (sign_between_roots_object lb (rs_top (root_stack_object uf lb ub)) uf).
Qed.

Lemma ctor_has_extra uf lb ub init cout :
  has_extra_ (fst (HDRS_ctor uf lb ub init cout)) =
  match sn uf lb ub with NEGATIVE => true | _ => false end.
Proof.
  unfold HDRS_ctor, sn.
  now destruct (sign_between_roots_object lb (rs_top (root_stack_object uf lb ub)) uf).
Qed.

(** *** The invariant of the two flags *)

Lemma call_const_or_pop (m : method) h :
  fst (call m h) = h \/ (m = m_pop /\ fst (call m h) = pop h).
Proof. destruct m; simpl; auto. Qed.

Lemma flags_exclusive h :
  reachable h -> has_extra_ h && one_even_ h = false.
Proof.
  induction 1 as [uf lb ub init cout | m h R IH D].
  - rewrite ctor_one_even. apply andb_false_r.
  - destruct (call_const_or_pop m h) as [-> | [_ ->]]; [exact IH|].
    now rewrite pop_has_extra.
Qed.

(** *** Counting the calls of [pop()] *)

Lemma empty_after_exactly_S h n :
  empty h = false ->
  empty_after_exactly (pop h) n ->
  empty_after_exactly h (S n).
Proof.
  intros NE [Last Before]. split; [exact Last|].
  intros [|k] Hk; simpl; [exact NE|].
  apply Before. lia.
Qed.

Lemma empty_of_flags h :
  has_extra_ h = false -> empty h = rs_empty (solver_ h).
Proof. intros E. unfold empty. now rewrite E. Qed.

(** Without a pending extra root and with [one_even_] down, a stack whose
    solver holds [rs] takes one [pop()] for each root and one more for each
    root that the classifier flags. *)
Lemma drain (rs : list Root) : forall h,
  has_extra_ h = false -> one_even_ h = false ->
  holds_roots (solver_ h) rs ->
  empty_after_exactly h (List.length rs + List.length (filter (iem_ h) rs)).
Proof.
  induction rs as [|r rs IH]; intros h E O Hs; simpl in Hs.
  - split; simpl.
    + now rewrite empty_of_flags.
    + intros k Hk. lia.
  - destruct Hs as (NE & Top & Rest). simpl.
    assert (NEh : empty h = false) by now rewrite empty_of_flags.
    destruct (iem_ h r) eqn:I; simpl.
    + (* flagged: one call that stays, one that pops *)
      assert (P1 : pop h = mkHDRS (solver_ h) (extra_root_ h) true false (iem_ h)).
      { unfold pop. rewrite pop_suppress_even; auto. now rewrite Top. }
      assert (P2 : pop (pop h) =
                   mkHDRS (rs_pop (solver_ h)) (extra_root_ h) false false (iem_ h)).
      { rewrite P1. unfold pop. rewrite pop_real_pop; simpl; auto. }
      rewrite Nat.add_succ_r.
      apply empty_after_exactly_S; [exact NEh|].
      apply empty_after_exactly_S.
      { rewrite P1. unfold empty. simpl. exact NE. }
      specialize (IH (pop (pop h))). rewrite P2 in IH |- *. simpl in IH.
      now apply IH.
    + assert (P1 : pop h =
                   mkHDRS (rs_pop (solver_ h)) (extra_root_ h) false false (iem_ h)).
      { unfold pop. rewrite pop_real_pop; auto. right. now rewrite Top. }
      apply empty_after_exactly_S; [exact NEh|].
      specialize (IH (pop h)). rewrite P1 in IH |- *. simpl in IH.
      now apply IH.
Qed.

(** *** The member functions, one by one *)

(** C1. In a reachable, non-empty state [pop()] takes one of three branches.
    With [has_extra_] set it resets [extra_root_] to [Root()] and clears
    [has_extra_], the solver and [one_even_] staying as they were (and
    [one_even_] is false there).  Otherwise, with [one_even_] clear and the
    top of the solver flagged as a root of even multiplicity, it sets
    [one_even_] and leaves the solver as it was.  Otherwise it pops the
    solver and clears [one_even_]. *)
Theorem pop_three_way_branch h :
  reachable h -> empty h = false ->
  (has_extra_ h = true ->
     pop h = mkHDRS (solver_ h) Root_default (one_even_ h) false (iem_ h) /\
     one_even_ (pop h) = false) /\
  (has_extra_ h = false -> one_even_ h = false ->
   iem_ h (rs_top (solver_ h)) = true ->
     pop h = mkHDRS (solver_ h) (extra_root_ h) true false (iem_ h)) /\
  (has_extra_ h = false ->
   one_even_ h = true \/ iem_ h (rs_top (solver_ h)) = false ->
     pop h = mkHDRS (rs_pop (solver_ h)) (extra_root_ h) false false (iem_ h)).
Proof.
  intros R _. split; [|split].
  - intros E. unfold pop. rewrite pop_clear_extra by exact E. simpl.
    split; [reflexivity|].
    pose proof (flags_exclusive h R) as F. now rewrite E in F.
  - intros E O I. unfold pop. now rewrite pop_suppress_even.
  - intros E OI. unfold pop. now rewrite pop_real_pop.
Qed.

(** C2, amended. When the solver built for [(uf, lb, ub)] holds the roots
    [rs], [empty()] is true after exactly [N + D + E] calls of [pop()] and
    false after every smaller number of calls: [N] the number of roots in
    [rs], [D] one if the constructor detected a degeneracy and zero
    otherwise, [E] the number of roots in [rs] that the classifier reports
    as roots of even multiplicity.  The count does not rest on the
    constructor's precondition. *)
Theorem empties_after_roots_degeneracy_and_even uf lb ub init cout (rs : list Root) :
  holds_roots (root_stack_object uf lb ub) rs ->
  empty_after_exactly (fst (HDRS_ctor uf lb ub init cout))
    (List.length rs + degeneracy_count uf lb ub + even_count uf rs).
Proof.
  intros Hs.
  set (h := fst (HDRS_ctor uf lb ub init cout)).
  assert (S_ : solver_ h = root_stack_object uf lb ub) by apply ctor_solver.
  assert (O : one_even_ h = false) by apply ctor_one_even.
  assert (I : iem_ h = is_even_multiplicity_object uf) by apply ctor_iem.
  assert (X : has_extra_ h = match sn uf lb ub with NEGATIVE => true | _ => false end)
    by apply ctor_has_extra.
  unfold even_count, degeneracy_count. rewrite <- I.
  assert (Plain : forall g, has_extra_ g = false -> one_even_ g = false ->
                   solver_ g = solver_ h -> iem_ g = iem_ h ->
                   empty_after_exactly g
                     (List.length rs + List.length (filter (iem_ h) rs))).
  { intros g Eg Og Sg Ig. rewrite <- Ig. apply drain; auto.
    rewrite Sg, S_. exact Hs. }
  destruct (sn uf lb ub).
  - (* the extra root goes first *)
    replace (List.length rs + 1 + List.length (filter (iem_ h) rs))
      with (S (List.length rs + List.length (filter (iem_ h) rs))) by lia.
    apply empty_after_exactly_S.
    + unfold empty. now rewrite X.
    + apply Plain.
      * apply pop_has_extra.
      * unfold pop. rewrite pop_clear_extra by exact X. simpl. exact O.
      * unfold pop. now rewrite pop_clear_extra by exact X.
      * apply pop_keeps_iem.
  - rewrite Nat.add_0_r. now apply Plain.
  - rewrite Nat.add_0_r. now apply Plain.
Qed.

(** C3. The constructor sets [extra_root_] to [lb] and [has_extra_] to true
    when the sign between [lb] and the top of the solver is NEGATIVE, and
    then writes to the standard output, after what was there, the text
    "Degeneracy for ", the function, " between ", [lb], " and ", the top of
    the solver and a line end; for any other sign it clears [has_extra_],
    leaves [extra_root_] as its default initialisation left it and writes
    nothing; in both cases [one_even_] starts false. *)
Theorem ctor_detects_degeneracy uf lb ub init cout :
  (sn uf lb ub = NEGATIVE ->
     extra_root_ (fst (HDRS_ctor uf lb ub init cout)) = lb /\
     has_extra_ (fst (HDRS_ctor uf lb ub init cout)) = true /\
     snd (HDRS_ctor uf lb ub init cout) =
       (Root_write
          (Root_write
             (Function_write (cout ++ "Degeneracy for ") uf ++ " between ") lb
           ++ " and ")
          (rs_top (root_stack_object uf lb ub))
        ++ String (ascii_of_nat 10) EmptyString)%string) /\
  (sn uf lb ub <> NEGATIVE ->
     has_extra_ (fst (HDRS_ctor uf lb ub init cout)) = false /\
     extra_root_ (fst (HDRS_ctor uf lb ub init cout)) = init /\
     snd (HDRS_ctor uf lb ub init cout) = cout) /\
  one_even_ (fst (HDRS_ctor uf lb ub init cout)) = false.
Proof.
  unfold sn, HDRS_ctor.
  destruct (sign_between_roots_object lb (rs_top (root_stack_object uf lb ub)) uf);
    simpl; repeat split; intros; try discriminate; congruence.
Qed.

(** C4. In a non-empty state with [has_extra_] and [one_even_] clear and
    the top of the solver flagged as a root of even multiplicity, one
    [pop()] leaves the solver, and so [top()], as they were (the stack is
    still not empty), and the [pop()] after it pops the solver.  In any
    state, a [pop()] that suppresses is followed by a [pop()] that pops the
    solver, so no two suppressions happen in a row. *)
Theorem even_root_suppressed_once h :
  empty h = false ->
  has_extra_ h = false -> one_even_ h = false ->
  iem_ h (rs_top (solver_ h)) = true ->
  (branch_of_pop h = suppress_even /\
   solver_ (pop h) = solver_ h /\ top (pop h) = top h /\
   empty (pop h) = false) /\
  (branch_of_pop (pop h) = real_pop /\
   solver_ (pop (pop h)) = rs_pop (solver_ h) /\
   one_even_ (pop (pop h)) = false) /\
  (forall g, branch_of_pop g = suppress_even -> branch_of_pop (pop g) = real_pop).
Proof.
  assert (Next : forall g, branch_of_pop g = suppress_even ->
                   pop_step (pop g) =
                   (real_pop,
                    mkHDRS (rs_pop (solver_ g)) (extra_root_ g) false false (iem_ g))).
  { intros g B. pose proof (branch_of_pop_inv g) as Inv. rewrite B in Inv.
    destruct Inv as (E & O & I).
    unfold pop at 1. rewrite (pop_suppress_even g E O I). simpl.
    rewrite pop_real_pop; simpl; auto. }
  intros NE E O I.
  assert (B : branch_of_pop h = suppress_even).
  { unfold branch_of_pop. now rewrite pop_suppress_even. }
  split; [|split].
  - split; [exact B|]. revert NE.
    unfold pop, top, empty. rewrite pop_suppress_even by assumption.
    simpl. now rewrite E.
  - unfold branch_of_pop. unfold pop at 2 4. rewrite (Next h B). now simpl.
  - intros g Bg. unfold branch_of_pop. now rewrite (Next g Bg).
Qed.

(** C5. In a reachable state where [empty()] is false, a call of [top()]
    returns [extra_root_] when [has_extra_] is set and the top of the solver
    otherwise, and the object after the call is the object before it.  In
    every reachable state, empty or not, a call of [empty()] leaves the
    object as it was and returns true exactly when [has_extra_] is clear and
    the solver is empty. *)
Theorem top_and_empty_read_only h :
  reachable h ->
  (empty h = false ->
     call m_top h =
       (h, r_root (if has_extra_ h then extra_root_ h else rs_top (solver_ h))) /\
     (has_extra_ h = true -> top h = extra_root_ h) /\
     (has_extra_ h = false -> top h = rs_top (solver_ h))) /\
  (exists b : bool, call m_empty h = (h, r_bool b) /\
     (b = true <-> has_extra_ h = false /\ rs_empty (solver_ h) = true)) /\
  (empty h = true <-> has_extra_ h = false /\ rs_empty (solver_ h) = true) /\
  (empty h = false <-> has_extra_ h = true \/ rs_empty (solver_ h) = false).
Proof.
  intros _.
  assert (Iff : empty h = true <->
                has_extra_ h = false /\ rs_empty (solver_ h) = true).
  { unfold empty. destruct (has_extra_ h), (rs_empty (solver_ h)); simpl;
      split; try tauto; try discriminate; intros [? ?]; discriminate. }
  split; [|split; [|split]].
  - intros _. unfold top. simpl. repeat split.
    + now intros ->.
    + now intros ->.
  - exists (empty h). split; [reflexivity | exact Iff].
  - exact Iff.
  - unfold empty. destruct (has_extra_ h), (rs_empty (solver_ h)); simpl;
      split; auto; try discriminate; intros [? | ?]; discriminate.
Qed.

(** C6. When the sign between [lb] and the top of the solver is NEGATIVE at
    construction, the first [top()] returns [lb] and the first [pop()]
    takes the clearing branch: [has_extra_] is cleared, [extra_root_] is
    reset, and the solver is the one the kernel built, not popped. *)
Theorem degeneracy_first_top_and_pop uf lb ub init cout :
  sn uf lb ub = NEGATIVE ->
  top (fst (HDRS_ctor uf lb ub init cout)) = lb /\
  branch_of_pop (fst (HDRS_ctor uf lb ub init cout)) = clear_extra /\
  solver_ (pop (fst (HDRS_ctor uf lb ub init cout))) = root_stack_object uf lb ub /\
  solver_ (pop (fst (HDRS_ctor uf lb ub init cout))) =
    solver_ (fst (HDRS_ctor uf lb ub init cout)) /\
  has_extra_ (pop (fst (HDRS_ctor uf lb ub init cout))) = false /\
  extra_root_ (pop (fst (HDRS_ctor uf lb ub init cout))) = Root_default.
Proof.
  unfold sn, HDRS_ctor. intros ->. now cbn.
Qed.

(** C7. In a reachable, non-empty state, [one_even_] is false after a
    [pop()] that clears the extra root and after a [pop()] that pops the
    solver, the two calls that change the root on top. *)
Theorem one_even_reset_when_top_changes h :
  reachable h -> empty h = false ->
  branch_of_pop h = clear_extra \/ branch_of_pop h = real_pop ->
  one_even_ (pop h) = false.
Proof.
  intros R _ B. pose proof (branch_of_pop_inv h) as Inv.
  destruct B as [B | B]; rewrite B in Inv.
  - unfold pop. rewrite pop_clear_extra by exact Inv. simpl.
    pose proof (flags_exclusive h R) as F. now rewrite Inv in F.
  - destruct Inv as (E & OI). unfold pop. now rewrite pop_real_pop.
Qed.

(** C8. In a state reached from the constructor by calls of the member
    functions, [has_extra_] and [one_even_] are not both true; no call sets
    [has_extra_], and a call leaves [one_even_] true only from a state where
    [has_extra_] is clear. *)
Theorem has_extra_and_one_even_exclusive h :
  reachable h ->
  ~ (has_extra_ h = true /\ one_even_ h = true) /\
  (forall m, has_extra_ (fst (call m h)) = true -> has_extra_ h = true) /\
  (forall m, one_even_ (fst (call m h)) = true -> has_extra_ h = false).
Proof.
  intros R. pose proof (flags_exclusive h R) as F. repeat split.
  - intros [E O]. now rewrite E, O in F.
  - intros m. destruct (call_const_or_pop m h) as [-> | [_ ->]]; [auto|].
    now rewrite pop_has_extra.
  - intros m. destruct (call_const_or_pop m h) as [-> | [_ ->]].
    + intros O. rewrite O, andb_true_r in F. exact F.
    + destruct (has_extra_ h) eqn:E; [|reflexivity].
      unfold pop. rewrite pop_clear_extra by exact E. simpl.
      intros O. now rewrite O in F.
Qed.

(** C9. [estimate()] returns the estimate of the solver whatever the values
    of [extra_root_], [one_even_] and [has_extra_]; with [has_extra_] set,
    [top()] returns [extra_root_] while [estimate()] still reports the
    solver's. *)
Theorem estimate_delegates_to_solver
    (s : Root_stack) (x : Root) (one_even has_extra : bool) (iem : Root -> bool) :
  estimate (mkHDRS s x one_even has_extra iem) = rs_estimate s /\
  call m_estimate (mkHDRS s x one_even has_extra iem) =
    (mkHDRS s x one_even has_extra iem, r_double (rs_estimate s)) /\
  estimate (mkHDRS s x one_even true iem) = rs_estimate s /\
  top (mkHDRS s x one_even true iem) = x.
Proof. repeat split. Qed.

(** C10. Two objects with equal solvers write the same text to the same
    stream, whatever their [has_extra_], [extra_root_] and [one_even_]. *)
Theorem write_depends_on_solver_only h g (out : ostream) :
  solver_ h = solver_ g ->
  write h out = write g out /\
  call (m_write out) h = (h, r_stream (rs_write out (solver_ h))).
Proof.
  intros S_. split; [|reflexivity].
  unfold write. now rewrite S_.
Qed.

End HDRS_properties.

(** ** Runs on the factored-polynomial kernel *)

Section Factored_runs.

Import Factored.

Local Open Scope Z_scope.

#[local] Existing Instance kernel.

(** Scenario A of the specification: roots 2 and 5, none of even
    multiplicity, no degeneracy at [lb = 0]. *)
Example scenario_A_run : observe 10 (build scenario_A 0 10) = [2; 5].
Proof. reflexivity. Qed.

(** Scenario B: a degeneracy at [lb = -1] with the solver's top at 3. *)
Example scenario_B_run :
  has_extra_ (build scenario_B (-1) 10) = true /\
  observe 10 (build scenario_B (-1) 10) = [-1; 3].
Proof. split; reflexivity. Qed.

(** Scenario C: the solver's top 4 is a root of even multiplicity. *)
Example scenario_C_run :
  top (build scenario_C 0 10) = 4 /\
  top (pop (build scenario_C 0 10)) = 4 /\
  top (pop (pop (build scenario_C 0 10))) = 7 /\
  observe 10 (build scenario_C 0 10) = [4; 4; 7].
Proof. repeat split; reflexivity. Qed.

(** The line written on a degeneracy. *)
Example scenario_B_line :
  snd (@HDRS_ctor kernel scenario_B (-1) 10 0 EmptyString) =
  endl "Degeneracy for 1(x - -1)^1(x - 3)^1 between -1 and 3"%string.
Proof. reflexivity. Qed.

(** While the extra root is pending, [top()] is the lower bound and
    [estimate()] is the estimate of the solver's top. *)
Example scenario_B_estimate :
  top (build scenario_B (-1) 10) = -1 /\
  estimate (build scenario_B (-1) 10) = float_of_Z 3.
Proof. split; reflexivity. Qed.

(** C1, at the object built for scenario C: the second branch applies. *)
Lemma pop_three_way_branch_witness :
  reachable (build scenario_C 0 10) /\
  empty (build scenario_C 0 10) = false /\
  pop (build scenario_C 0 10) =
    mkHDRS (Traits_t := kernel) [4; 7] 0 true false (is_even_multiplicity scenario_C).
Proof.
  split; [exact (@reach_ctor kernel scenario_C 0 10 0 EmptyString)|].
  split; [reflexivity|].
  apply (proj1 (proj2 (@pop_three_way_branch kernel (build scenario_C 0 10)
           (@reach_ctor kernel scenario_C 0 10 0 EmptyString) eq_refl)));
    reflexivity.
Defined.

(** C2, as the specification words it, fails for [(x - 4)^2] on [(0, 10)]:
    the precondition holds, the solver holds the one root 4, no degeneracy
    is detected, and after [1 + 0] calls of [pop()] the stack is not empty;
    it is after two. *)
Lemma double_root_takes_two_pops :
  expensive_precondition (Traits_t := kernel) double_root 0 10 = true /\
  holds_roots (Traits_t := kernel) (roots_between double_root 0 10) [4] /\
  degeneracy_count (Traits_t := kernel) double_root 0 10 = 0%nat /\
  empty (pops (1 + 0) (build double_root 0 10)) = false /\
  empty (pops 2 (build double_root 0 10)) = true /\
  ~ empties_after_roots_plus_degeneracy kernel.
Proof.
  assert (Hs : holds_roots (Traits_t := kernel) (roots_between double_root 0 10) [4])
    by (vm_compute; auto).
  repeat split; try reflexivity.
  intros Claim.
  destruct (Claim double_root 0 10 0 EmptyString [4] eq_refl Hs) as [Last _].
  vm_compute in Last. discriminate Last.
Qed.

(** The scenarios meet the precondition of the constructor. *)
Example scenarios_precondition :
  expensive_precondition scenario_A 0 10 = true /\
  expensive_precondition scenario_B (-1) 10 = true /\
  expensive_precondition scenario_C 0 10 = true.
Proof. repeat split; reflexivity. Qed.

(** C2 amended, at scenario C: two roots, no degeneracy, one root of even
    multiplicity, three calls. *)
Lemma empties_after_roots_degeneracy_and_even_witness :
  holds_roots (Traits_t := kernel) (roots_between scenario_C 0 10) [4; 7] /\
  empty_after_exactly (build scenario_C 0 10) 3.
Proof.
  assert (Hs : holds_roots (Traits_t := kernel) (roots_between scenario_C 0 10) [4; 7])
    by (vm_compute; auto).
  split; [exact Hs|].
  exact (@empties_after_roots_degeneracy_and_even kernel scenario_C 0 10 0
           EmptyString [4; 7] Hs).
Defined.

(** C4, at scenario C. *)
Lemma even_root_suppressed_once_witness :
  top (pop (build scenario_C 0 10)) = top (build scenario_C 0 10) /\
  solver_ (pop (pop (build scenario_C 0 10))) = [7].
Proof.
  pose proof (@even_root_suppressed_once kernel (build scenario_C 0 10)
                eq_refl eq_refl eq_refl eq_refl) as [(_ & _ & T & _) [(_ & P & _) _]].
  split; [exact T | exact P].
Defined.

(** C5, at scenario B, where the extra root is pending. *)
Lemma top_and_empty_read_only_witness :
  reachable (build scenario_B (-1) 10) /\
  empty (build scenario_B (-1) 10) = false /\
  call m_top (build scenario_B (-1) 10) = (build scenario_B (-1) 10, r_root (-1)) /\
  (empty (build scenario_B (-1) 10) = true <->
   has_extra_ (build scenario_B (-1) 10) = false /\
   rs_empty (solver_ (build scenario_B (-1) 10)) = true).
Proof.
  split; [exact (@reach_ctor kernel scenario_B (-1) 10 0 EmptyString)|].
  split; [reflexivity|].
  pose proof (@top_and_empty_read_only kernel (build scenario_B (-1) 10)
                (@reach_ctor kernel scenario_B (-1) 10 0 EmptyString))
    as (Top & _ & Iff & _).
  split; [exact (proj1 (Top eq_refl)) | exact Iff].
Defined.

(** C6, at scenario B. *)
Lemma degeneracy_first_top_and_pop_witness :
  sn (Traits_t := kernel) scenario_B (-1) 10 = NEGATIVE /\
  top (build scenario_B (-1) 10) = -1 /\
  solver_ (pop (build scenario_B (-1) 10)) = [3].
Proof.
  split; [reflexivity|].
  pose proof (@degeneracy_first_top_and_pop kernel scenario_B (-1) 10 0
                EmptyString eq_refl) as (T & _ & S_ & _).
  split; [exact T | exact S_].
Defined.

(** C7, at scenario B: the call that clears the extra root. *)
Lemma one_even_reset_when_top_changes_witness :
  branch_of_pop (build scenario_B (-1) 10) = clear_extra /\
  one_even_ (pop (build scenario_B (-1) 10)) = false.
Proof.
  split; [reflexivity|].
  exact (@one_even_reset_when_top_changes kernel (build scenario_B (-1) 10)
           (@reach_ctor kernel scenario_B (-1) 10 0 EmptyString) eq_refl
           (or_introl eq_refl)).
Defined.

(** C8, at scenario C after one [pop()], where [one_even_] is set. *)
Lemma has_extra_and_one_even_exclusive_witness :
  one_even_ (pop (build scenario_C 0 10)) = true /\
  ~ (has_extra_ (pop (build scenario_C 0 10)) = true /\
     one_even_ (pop (build scenario_C 0 10)) = true).
Proof.
  split; [reflexivity|].
  exact (proj1 (@has_extra_and_one_even_exclusive kernel (pop (build scenario_C 0 10))
           (@reach_call kernel m_pop (build scenario_C 0 10)
              (@reach_ctor kernel scenario_C 0 10 0 EmptyString) eq_refl))).
Defined.

(** C10, at scenario B before and after the extra root is cleared: the
    flags differ, the solver and the text written do not. *)
Lemma write_depends_on_solver_only_witness :
  has_extra_ (build scenario_B (-1) 10) = true /\
  has_extra_ (pop (build scenario_B (-1) 10)) = false /\
  write (build scenario_B (-1) 10) "roots: "%string =
  write (pop (build scenario_B (-1) 10)) "roots: "%string.
Proof.
  split; [reflexivity|]. split; [reflexivity|].
  exact (proj1 (@write_depends_on_solver_only kernel (build scenario_B (-1) 10)
           (pop (build scenario_B (-1) 10)) "roots: "%string eq_refl)).
Defined.

End Factored_runs.

(** ** Whole traversals, for every kernel *)

Section HDRS_traversal_properties.

Context {Traits_t : Traits}.

Implicit Types (h g : HDRS) (uf : Function) (lb ub init : Root) (cout : ostream).

(** *** [pop()] as an equation on the object *)

Lemma pop_of_clear_extra h :
  has_extra_ h = true ->
  pop h = mkHDRS (solver_ h) Root_default (one_even_ h) false (iem_ h).
Proof. intros E. unfold pop. now rewrite pop_clear_extra. Qed.

Lemma pop_of_suppress_even h :
  has_extra_ h = false -> one_even_ h = false ->
  iem_ h (rs_top (solver_ h)) = true ->
  pop h = mkHDRS (solver_ h) (extra_root_ h) true false (iem_ h).
Proof. intros E O I. unfold pop. now rewrite pop_suppress_even. Qed.

Lemma pop_of_real_pop h :
  has_extra_ h = false ->
  one_even_ h = true \/ iem_ h (rs_top (solver_ h)) = false ->
  pop h = mkHDRS (rs_pop (solver_ h)) (extra_root_ h) false false (iem_ h).
Proof. intros E OI. unfold pop. now rewrite pop_real_pop. Qed.

(** The three cases of a call, each with the object it leaves. *)
Lemma pop_cases h :
  (has_extra_ h = true /\
   pop h = mkHDRS (solver_ h) Root_default (one_even_ h) false (iem_ h)) \/
  (has_extra_ h = false /\ one_even_ h = false /\
   pop h = mkHDRS (solver_ h) (extra_root_ h) true false (iem_ h)) \/
  (has_extra_ h = false /\
   pop h = mkHDRS (rs_pop (solver_ h)) (extra_root_ h) false false (iem_ h)).
Proof.
  destruct (has_extra_ h) eqn:E.
  - left. split; [reflexivity|]. now apply pop_of_clear_extra.
  - right. destruct (one_even_ h) eqn:O.
    + right. split; [reflexivity|]. apply pop_of_real_pop; auto.
    + destruct (iem_ h (rs_top (solver_ h))) eqn:I.
      * left. repeat split. now apply pop_of_suppress_even.
      * right. split; [reflexivity|]. apply pop_of_real_pop; auto.
Qed.

(** *** The roots a user sees *)

(** With no extra root pending and [one_even_] down, the object holds the
    roots of its solver, the flagged ones twice. *)
Lemma HDRS_holds_plain (rs : list Root) : forall h,
  has_extra_ h = false -> one_even_ h = false ->
  holds_roots (solver_ h) rs ->
  HDRS_holds h (reported (iem_ h) rs).
Proof.
  induction rs as [|r rs IH]; intros h E O Hs; simpl in Hs.
  - simpl. now rewrite empty_of_flags.
  - destruct Hs as (NE & Top & Rest).
    assert (NEh : empty h = false) by now rewrite empty_of_flags.
    assert (Th : top h = r) by (unfold top; now rewrite E).
    unfold reported. simpl. fold (reported (iem_ h) rs).
    destruct (iem_ h r) eqn:I; simpl.
    + pose proof (pop_of_suppress_even h E O) as P1.
      rewrite Top in P1. specialize (P1 I).
      repeat split; try assumption.
      * rewrite P1. unfold empty. simpl. exact NE.
      * rewrite P1. unfold top. simpl. exact Top.
      * rewrite P1. rewrite pop_of_real_pop by (simpl; auto). simpl.
        now apply (IH (mkHDRS (rs_pop (solver_ h)) (extra_root_ h) false false (iem_ h))).
    + repeat split; try assumption.
      rewrite pop_of_real_pop by (rewrite ?Top; auto).
      now apply (IH (mkHDRS (rs_pop (solver_ h)) (extra_root_ h) false false (iem_ h))).
Qed.

(** X1. When the solver built for [(uf, lb, ub)] holds the roots [rs], the
    object the constructor builds holds, for a user who reads [top()] and
    calls [pop()] until [empty()]: first [lb] if the sign after it is
    NEGATIVE, then the roots of [rs] in order, each once, or twice in a row
    if the classifier flags it. *)
Theorem ctor_holds_reported_roots uf lb ub init cout (rs : list Root) :
  holds_roots (root_stack_object uf lb ub) rs ->
  HDRS_holds (fst (HDRS_ctor uf lb ub init cout))
    (extra_roots uf lb ub ++ reported (is_even_multiplicity_object uf) rs).
Proof.
  intros Hs.
  assert (Plain : forall x : Root,
            HDRS_holds
              (mkHDRS (root_stack_object uf lb ub) x false false
                      (is_even_multiplicity_object uf))
              (reported (is_even_multiplicity_object uf) rs)).
  { intros x.
    exact (HDRS_holds_plain rs
             (mkHDRS (root_stack_object uf lb ub) x false false
                     (is_even_multiplicity_object uf))
             eq_refl eq_refl Hs). }
  unfold extra_roots, sn, HDRS_ctor.
  destruct (sign_between_roots_object lb (rs_top (root_stack_object uf lb ub)) uf);
    simpl; try exact (Plain init).
  repeat split. rewrite pop_of_clear_extra by reflexivity. exact (Plain Root_default).
Qed.

(** The same from a state where the extra root may be pending. *)
Lemma HDRS_holds_any h (rs : list Root) :
  holds_roots (solver_ h) rs -> one_even_ h = false ->
  HDRS_holds h ((if has_extra_ h then [extra_root_ h] else []) ++
                reported (iem_ h) rs).
Proof.
  intros Hs O. destruct (has_extra_ h) eqn:E.
  - simpl. repeat split.
    + unfold empty. now rewrite E.
    + unfold top. now rewrite E.
    + rewrite (pop_of_clear_extra h E), O.
      exact (HDRS_holds_plain rs
               (mkHDRS (solver_ h) Root_default false false (iem_ h))
               eq_refl eq_refl Hs).
  - simpl. now apply HDRS_holds_plain.
Qed.

(** *** The extra root is issued once *)

Lemma pops_S n : forall h, pops (S n) h = pop (pops n h).
Proof. induction n as [|n IH]; intros h; [reflexivity|]. simpl. now rewrite <- IH. Qed.

Lemma within_contract_S n : forall h,
  within_contract (S n) h = true ->
  within_contract n h = true /\ empty (pops n h) = false.
Proof.
  induction n as [|n IH]; intros h W.
  - simpl in *. rewrite andb_true_r in W. split; [reflexivity|].
    now destruct (empty h).
  - change (negb (empty h) && within_contract (S n) (pop h) = true) in W.
    apply andb_true_iff in W. destruct W as [NE W].
    destruct (IH (pop h) W) as [W' E'].
    split; [|exact E']. simpl. now rewrite NE, W'.
Qed.

Lemma reachable_pops n : forall h,
  reachable h -> within_contract n h = true -> reachable (pops n h).
Proof.
  induction n as [|n IH]; intros h R W; [exact R|].
  simpl in *. apply andb_true_iff in W. destruct W as [NE W].
  apply IH; [|exact W].
  exact (reach_call m_pop h R NE).
Qed.

(** Calls of [pop()] made without a pending extra root leave
    [extra_root_] as it is. *)
Lemma pops_keep_extra_root n : forall h,
  has_extra_ h = false ->
  has_extra_ (pops n h) = false /\ extra_root_ (pops n h) = extra_root_ h.
Proof.
  induction n as [|n IH]; intros h E; [now split|].
  simpl. destruct (IH (pop h) (pop_has_extra h)) as [X R].
  split; [exact X|]. rewrite R.
  destruct (pop_cases h) as [[E' P] | [(_ & _ & P) | (_ & P)]];
    [congruence | now rewrite P | now rewrite P].
Qed.

(** X2. From a reachable state, after one or more calls of [pop()] made
    within the contract, no extra root is pending and [top()] is the top of
    the solver: the lower bound is issued at most once, as the first root.
    If it was pending, [extra_root_] is [Root()] afterwards, the lower bound
    is not kept; if it was not, [extra_root_] is what it was, no call
    writes it. *)
Theorem extra_root_never_reissued (n : nat) h :
  reachable h -> within_contract (S n) h = true ->
  has_extra_ (pops (S n) h) = false /\
  top (pops (S n) h) = rs_top (solver_ (pops (S n) h)) /\
  (has_extra_ h = true -> extra_root_ (pops (S n) h) = Root_default) /\
  (has_extra_ h = false -> extra_root_ (pops (S n) h) = extra_root_ h).
Proof.
  intros _ _.
  assert (X : has_extra_ (pops (S n) h) = false).
  { rewrite pops_S. apply pop_has_extra. }
  split; [exact X|]. split; [unfold top; now rewrite X|]. split.
  - intros E. simpl.
    destruct (pops_keep_extra_root n (pop h) (pop_has_extra h)) as [_ R].
    rewrite R. now rewrite (pop_of_clear_extra h E).
  - intros E. now destruct (pops_keep_extra_root (S n) h E).
Qed.

(** *** How often the solver is popped *)

Lemma pending_le_2 h : pending h <= 2.
Proof. unfold pending. destruct (has_extra_ h), (one_even_ h); simpl; lia. Qed.

(** A call either leaves the solver alone and uses up one pending call, or
    pops the solver and leaves one pending call. *)
Lemma pop_progress h :
  (solver_ (pop h) = solver_ h /\ pending (pop h) + 1 = pending h) \/
  (solver_ (pop h) = rs_pop (solver_ h) /\ pending (pop h) = 1).
Proof.
  unfold pending.
  destruct (pop_cases h) as [[E P] | [(E & O & P) | (E & P)]];
    rewrite P; simpl.
  - left. rewrite E. split; [reflexivity|]. destruct (one_even_ h); simpl; lia.
  - left. rewrite E, O. split; reflexivity.
  - right. split; reflexivity.
Qed.

(** X3. After [n] calls of [pop()] made within the contract the solver has
    been popped [k] times and nothing else has been done to it, with
    [k <= n <= 2 k + 2]: at most one call goes to the extra root and at most
    one to each root that is flagged.  The classifier is the one the object
    started with, and [operator<<] and [estimate()] show the solver popped
    [k] times. *)
Theorem solver_popped_at_least_every_second_call (n : nat) : forall h (out : ostream),
  within_contract n h = true ->
  exists k : nat,
    solver_ (pops n h) = rs_pops k (solver_ h) /\
    iem_ (pops n h) = iem_ h /\
    k <= n /\
    n + pending (pops n h) <= 2 * k + pending h /\
    n <= 2 * k + 2 /\
    operator_shl out (pops n h) = rs_write out (rs_pops k (solver_ h)) /\
    estimate (pops n h) = rs_estimate (rs_pops k (solver_ h)).
Proof.
  assert (Core : forall m g, exists k : nat,
            solver_ (pops m g) = rs_pops k (solver_ g) /\
            iem_ (pops m g) = iem_ g /\
            k <= m /\
            m + pending (pops m g) <= 2 * k + pending g).
  { induction m as [|m IH]; intros g.
    - exists 0. simpl. repeat split; lia.
    - destruct (IH (pop g)) as (k & S_ & I & Le & Pot).
      change (pops (S m) g) with (pops m (pop g)).
      rewrite pop_keeps_iem in I.
      destruct (pop_progress g) as [[Sg Pg] | [Sg Pg]].
      + exists k. rewrite S_, Sg. repeat split; auto; lia.
      + exists (S k). rewrite S_, Sg. repeat split; auto; lia. }
  intros h out _.
  destruct (Core n h) as (k & S_ & I & Le & Pot).
  exists k. repeat split; auto.
  - pose proof (pending_le_2 h). lia.
  - unfold operator_shl, write. now rewrite S_.
  - unfold estimate. now rewrite S_.
Qed.

End HDRS_traversal_properties.

(** ** From the constructor to the empty stack *)

Section HDRS_construction_properties.

Context {Traits_t : Traits}.

Implicit Types (h g : HDRS) (uf : Function) (lb ub init : Root) (cout : ostream).

(** X4. When the constructor's precondition holds, the sign after [lb] is
    NEGATIVE and the solver is not empty, the first root seen is [lb], the
    stack is not empty after the first [pop()], the second root seen is the
    top of the solver, and the second is greater than the first. *)
Theorem lower_bound_comes_before_first_root uf lb ub init cout :
  expensive_precondition uf lb ub = true ->
  sn uf lb ub = NEGATIVE ->
  rs_empty (root_stack_object uf lb ub) = false ->
  top (fst (HDRS_ctor uf lb ub init cout)) = lb /\
  empty (pop (fst (HDRS_ctor uf lb ub init cout))) = false /\
  top (pop (fst (HDRS_ctor uf lb ub init cout))) = rs_top (root_stack_object uf lb ub) /\
  Root_gt (top (pop (fst (HDRS_ctor uf lb ub init cout))))
          (top (fst (HDRS_ctor uf lb ub init cout))) = true.
Proof.
  unfold expensive_precondition, sn, HDRS_ctor. intros Pre Neg NE.
  rewrite Neg. cbn. repeat split; assumption.
Qed.

(** With no extra root pending and [one_even_] down, the calls that empty
    the stack leave the solver popped once for each root. *)
Lemma pops_plain (rs : list Root) : forall h,
  has_extra_ h = false -> one_even_ h = false ->
  holds_roots (solver_ h) rs ->
  pops (List.length rs + List.length (filter (iem_ h) rs)) h =
  mkHDRS (rs_pops (List.length rs) (solver_ h)) (extra_root_ h) false false (iem_ h).
Proof.
  induction rs as [|r rs IH]; intros h E O Hs; simpl in Hs.
  - simpl. destruct h; simpl in *. congruence.
  - destruct Hs as (NE & Top & Rest). simpl.
    destruct (iem_ h r) eqn:I; simpl.
    + rewrite Nat.add_succ_r. simpl.
      rewrite (pop_of_suppress_even h E O) by now rewrite Top.
      rewrite pop_of_real_pop by (simpl; auto). simpl.
      exact (IH (mkHDRS (rs_pop (solver_ h)) (extra_root_ h) false false (iem_ h))
                eq_refl eq_refl Rest).
    + rewrite (pop_of_real_pop h E) by (rewrite Top; auto).
      exact (IH (mkHDRS (rs_pop (solver_ h)) (extra_root_ h) false false (iem_ h))
                eq_refl eq_refl Rest).
Qed.

(** X5. When the solver built for [(uf, lb, ub)] holds the roots [rs], the
    calls of [pop()] that empty the stack leave the solver popped once for
    each root of [rs] and both flags down.  [extra_root_] is [Root()] when
    the sign after [lb] was NEGATIVE, and otherwise still the value that
    the constructor left unassigned. *)
Theorem emptied_stack_state uf lb ub init cout (rs : list Root) :
  holds_roots (root_stack_object uf lb ub) rs ->
  pops (List.length rs + degeneracy_count uf lb ub + even_count uf rs)
       (fst (HDRS_ctor uf lb ub init cout)) =
  mkHDRS (rs_pops (List.length rs) (root_stack_object uf lb ub))
         (match sn uf lb ub with NEGATIVE => Root_default | _ => init end)
         false false (is_even_multiplicity_object uf).
Proof.
  intros Hs.
  assert (Plain : forall x : Root,
            pops (List.length rs +
                  List.length (filter (is_even_multiplicity_object uf) rs))
                 (mkHDRS (root_stack_object uf lb ub) x false false
                         (is_even_multiplicity_object uf)) =
            mkHDRS (rs_pops (List.length rs) (root_stack_object uf lb ub)) x
                   false false (is_even_multiplicity_object uf)).
  { intros x.
    exact (pops_plain rs
             (mkHDRS (root_stack_object uf lb ub) x false false
                     (is_even_multiplicity_object uf))
             eq_refl eq_refl Hs). }
  unfold degeneracy_count, even_count, sn, HDRS_ctor.
  destruct (sign_between_roots_object lb (rs_top (root_stack_object uf lb ub)) uf);
    simpl fst.
  - replace (List.length rs + 1 +
             List.length (filter (is_even_multiplicity_object uf) rs))
      with (S (List.length rs +
               List.length (filter (is_even_multiplicity_object uf) rs))) by lia.
    simpl pops. rewrite pop_of_clear_extra by reflexivity. exact (Plain Root_default).
  - rewrite Nat.add_0_r. exact (Plain init).
  - rewrite Nat.add_0_r. exact (Plain init).
Qed.

(** *** Kernels without degeneracies *)

Lemma reported_unflagged (iem : Root -> bool) (rs : list Root) :
  Forall (fun r => iem r = false) rs -> reported iem rs = rs.
Proof.
  induction 1 as [|r rs Hr _ IH]; [reflexivity|].
  unfold reported in *. simpl. now rewrite Hr, IH.
Qed.

Lemma pops_unflagged (n : nat) : forall (rs : list Root) h,
  has_extra_ h = false -> one_even_ h = false ->
  holds_roots (solver_ h) rs ->
  Forall (fun r => iem_ h r = false) rs ->
  n <= List.length rs ->
  pops n h = mkHDRS (rs_pops n (solver_ h)) (extra_root_ h) false false (iem_ h).
Proof.
  induction n as [|n IH]; intros rs h E O Hs Un Len.
  - simpl. destruct h; simpl in *. congruence.
  - destruct rs as [|r rs]; simpl in Len; [lia|].
    destruct Hs as (NE & Top & Rest). inversion Un as [|? ? Hr Un']; subst.
    simpl. rewrite (pop_of_real_pop h E) by (right; exact Hr).
    assert (Len' : n <= List.length rs) by lia.
    exact (IH rs (mkHDRS (rs_pop (solver_ h)) (extra_root_ h) false false (iem_ h))
              eq_refl eq_refl Rest Un' Len').
Qed.

(** X6. When the sign after [lb] is not NEGATIVE and the classifier flags
    none of the roots [rs] that the solver holds, the object is the solver
    in a wrapper: it holds [rs] as they are, and [n] calls of [pop()] are
    [n] calls of [solver_.pop()] that change no other member, for [n] up to
    the number of roots. *)
Theorem transparent_without_degeneracy uf lb ub init cout (rs : list Root) :
  holds_roots (root_stack_object uf lb ub) rs ->
  Forall (fun r => is_even_multiplicity_object uf r = false) rs ->
  sn uf lb ub <> NEGATIVE ->
  HDRS_holds (fst (HDRS_ctor uf lb ub init cout)) rs /\
  forall n : nat, n <= List.length rs ->
    pops n (fst (HDRS_ctor uf lb ub init cout)) =
    mkHDRS (rs_pops n (root_stack_object uf lb ub))
           (extra_root_ (fst (HDRS_ctor uf lb ub init cout)))
           false false (is_even_multiplicity_object uf).
Proof.
  intros Hs Un Pos.
  assert (Built : fst (HDRS_ctor uf lb ub init cout) =
                  mkHDRS (root_stack_object uf lb ub) init false false
                         (is_even_multiplicity_object uf)).
  { revert Pos. unfold sn, HDRS_ctor.
    destruct (sign_between_roots_object lb (rs_top (root_stack_object uf lb ub)) uf);
      simpl; congruence. }
  rewrite Built. split.
  - pose proof (HDRS_holds_plain rs
                  (mkHDRS (root_stack_object uf lb ub) init false false
                          (is_even_multiplicity_object uf))
                  eq_refl eq_refl Hs) as Held.
    simpl in Held. now rewrite (reported_unflagged _ rs Un) in Held.
  - intros n Len.
    exact (pops_unflagged n rs
             (mkHDRS (root_stack_object uf lb ub) init false false
                     (is_even_multiplicity_object uf))
             eq_refl eq_refl Hs Un Len).
Qed.

(** X7. A stack that [Handle_degeneracy_function_kernel::root_stack_object]
    returns prints with [operator<<] and estimates as the root stack of the
    wrapped kernel for the same arguments, also while the lower bound is
    pending as the first root and right after the call that clears it. *)
Theorem kernel_stack_prints_as_wrapped_solver uf lb ub init cout (out : ostream) (n : nat) :
  n <= degeneracy_count uf lb ub ->
  operator_shl out
    (pops n (fst (Handle_degeneracy_function_kernel.root_stack_object uf lb ub init cout))) =
    rs_write out (root_stack_object uf lb ub) /\
  estimate
    (pops n (fst (Handle_degeneracy_function_kernel.root_stack_object uf lb ub init cout))) =
    rs_estimate (root_stack_object uf lb ub).
Proof.
  unfold Handle_degeneracy_function_kernel.root_stack_object.
  unfold degeneracy_count, sn, HDRS_ctor, operator_shl, write, estimate.
  destruct (sign_between_roots_object lb (rs_top (root_stack_object uf lb ub)) uf);
    simpl fst; intros Len.
  - destruct n as [|[|n]]; [split; reflexivity | | lia].
    simpl pops. rewrite pop_of_clear_extra by reflexivity. split; reflexivity.
  - replace n with 0 by lia. split; reflexivity.
  - replace n with 0 by lia. split; reflexivity.
Qed.

End HDRS_construction_properties.

(** ** The order of the roots seen *)

Section HDRS_order_properties.

Context {Traits_t : Traits}.

Implicit Types (uf : Function) (lb ub init : Root) (cout : ostream).

Lemma reported_cons (iem : Root -> bool) (r : Root) (rs : list Root) :
  reported iem (r :: rs) =
  if iem r then r :: r :: reported iem rs else r :: reported iem rs.
Proof. unfold reported. simpl. now destruct (iem r). Qed.

Lemma adjacent_reported (iem : Root -> bool) (rs : list Root) :
  adjacent later rs -> adjacent (later_or_flagged iem) (reported iem rs).
Proof.
  induction rs as [|a rs IH]; intros Asc; [exact I|].
  destruct rs as [|b rs].
  - rewrite reported_cons. unfold reported. simpl.
    destruct (iem a) eqn:Fa; simpl; auto.
    split; [right; auto | exact I].
  - destruct Asc as [Lt Asc]. specialize (IH Asc).
    rewrite reported_cons. rewrite reported_cons in IH |- *.
    assert (Step : later_or_flagged iem a b) by (left; exact Lt).
    destruct (iem a) eqn:Fa, (iem b) eqn:Fb; simpl in *;
      repeat split; try tauto; right; auto.
Qed.

(** X8. When the roots [rs] that the solver holds come each strictly after
    the one before and the constructor's precondition holds, the roots the
    object holds for its user never go back: each comes strictly after the
    one before it, or repeats it, and a repeat is a root that the
    classifier flags. *)
Theorem reported_roots_never_go_back uf lb ub init cout (rs : list Root) :
  holds_roots (root_stack_object uf lb ub) rs ->
  adjacent later rs ->
  expensive_precondition uf lb ub = true ->
  HDRS_holds (fst (HDRS_ctor uf lb ub init cout))
    (extra_roots uf lb ub ++ reported (is_even_multiplicity_object uf) rs) /\
  adjacent (later_or_flagged (is_even_multiplicity_object uf))
    (extra_roots uf lb ub ++ reported (is_even_multiplicity_object uf) rs).
Proof.
  intros Hs Asc Pre. split.
  { unfold extra_roots, sn, HDRS_ctor.
    destruct (sign_between_roots_object lb (rs_top (root_stack_object uf lb ub)) uf);
      simpl fst.
    - exact (HDRS_holds_any
               (mkHDRS (root_stack_object uf lb ub) lb false true
                       (is_even_multiplicity_object uf)) rs Hs eq_refl).
    - exact (HDRS_holds_any
               (mkHDRS (root_stack_object uf lb ub) init false false
                       (is_even_multiplicity_object uf)) rs Hs eq_refl).
    - exact (HDRS_holds_any
               (mkHDRS (root_stack_object uf lb ub) init false false
                       (is_even_multiplicity_object uf)) rs Hs eq_refl). }
  pose proof (adjacent_reported (is_even_multiplicity_object uf) rs Asc) as Rep.
  unfold extra_roots. destruct (sn uf lb ub); simpl; try exact Rep.
  destruct rs as [|r rs]; [exact I|].
  destruct Hs as (_ & Top & _).
  unfold expensive_precondition in Pre. rewrite Top in Pre.
  rewrite reported_cons in Rep |- *.
  destruct (is_even_multiplicity_object uf r); (split; [left; exact Pre | exact Rep]).
Qed.

End HDRS_order_properties.

(** ** Traversals on the factored-polynomial kernel *)

Section Factored_traversals.

Import Factored.

Local Open Scope Z_scope.

#[local] Existing Instance kernel.

(** The solver built for [(x + 1) (x - 3)^2 (x - 5)] on [(-1, 10)]. *)
Example degenerate_double_root_solver :
  roots_between degenerate_double_root (-1) 10 = [3; 5] /\
  sn degenerate_double_root (-1) 10 = NEGATIVE /\
  is_even_multiplicity degenerate_double_root 3 = true /\
  is_even_multiplicity degenerate_double_root 5 = false /\
  expensive_precondition degenerate_double_root (-1) 10 = true.
Proof. repeat split; reflexivity. Qed.

(** X1, at [(x + 1) (x - 3)^2 (x - 5)] on [(-1, 10)]: the lower bound, the
    double root twice, the simple root once. *)
Lemma ctor_holds_reported_roots_witness :
  holds_roots (roots_between degenerate_double_root (-1) 10) [3; 5] /\
  HDRS_holds (build degenerate_double_root (-1) 10) [-1; 3; 3; 5].
Proof.
  assert (Hs : holds_roots (roots_between degenerate_double_root (-1) 10) [3; 5])
    by (vm_compute; auto).
  split; [exact Hs|].
  exact (@ctor_holds_reported_roots kernel degenerate_double_root (-1) 10 0
           EmptyString [3; 5] Hs).
Defined.

(** X2, at scenario A built over a member that held 7: one call later the
    member still holds 7. *)
Lemma extra_root_never_reissued_witness :
  reachable (fst (@HDRS_ctor kernel scenario_A 0 10 7 EmptyString)) /\
  within_contract 1 (fst (@HDRS_ctor kernel scenario_A 0 10 7 EmptyString)) = true /\
  has_extra_ (pops 1 (fst (@HDRS_ctor kernel scenario_A 0 10 7 EmptyString))) = false /\
  top (pops 1 (fst (@HDRS_ctor kernel scenario_A 0 10 7 EmptyString))) = 5 /\
  extra_root_ (pops 1 (fst (@HDRS_ctor kernel scenario_A 0 10 7 EmptyString))) = 7.
Proof.
  split; [exact (@reach_ctor kernel scenario_A 0 10 7 EmptyString)|].
  split; [reflexivity|].
  pose proof (@extra_root_never_reissued kernel 0
                (fst (@HDRS_ctor kernel scenario_A 0 10 7 EmptyString))
                (@reach_ctor kernel scenario_A 0 10 7 EmptyString) eq_refl)
    as (X & T & _ & Kept).
  split; [exact X|]. split; [exact T | exact (Kept eq_refl)].
Defined.

(** X3, at scenario C after its three calls. *)
Lemma solver_popped_at_least_every_second_call_witness :
  within_contract 3 (build scenario_C 0 10) = true /\
  exists k : nat,
    solver_ (pops 3 (build scenario_C 0 10)) = rs_pops k [4; 7] /\
    iem_ (pops 3 (build scenario_C 0 10)) = is_even_multiplicity scenario_C /\
    (k <= 3)%nat /\
    (3 + pending (pops 3 (build scenario_C 0 10)) <= 2 * k + 1)%nat /\
    (3 <= 2 * k + 2)%nat /\
    operator_shl EmptyString (pops 3 (build scenario_C 0 10)) =
      write_roots EmptyString (rs_pops k [4; 7]) /\
    estimate (pops 3 (build scenario_C 0 10)) = float_of_Z (hd 0 (rs_pops k [4; 7])).
Proof.
  split; [reflexivity|].
  exact (@solver_popped_at_least_every_second_call kernel 3
           (build scenario_C 0 10) EmptyString eq_refl).
Defined.

(** X4, at scenario B. *)
Lemma lower_bound_comes_before_first_root_witness :
  expensive_precondition scenario_B (-1) 10 = true /\
  sn scenario_B (-1) 10 = NEGATIVE /\
  top (build scenario_B (-1) 10) = -1 /\
  empty (pop (build scenario_B (-1) 10)) = false /\
  top (pop (build scenario_B (-1) 10)) = 3 /\
  (top (pop (build scenario_B (-1) 10)) >? top (build scenario_B (-1) 10)) = true.
Proof.
  split; [reflexivity|]. split; [reflexivity|].
  exact (@lower_bound_comes_before_first_root kernel scenario_B (-1) 10 0
           EmptyString eq_refl eq_refl eq_refl).
Defined.

(** X5, at scenario A built over a member that held 7: after the two
    calls that empty the stack the member still holds 7. *)
Lemma emptied_stack_state_witness :
  holds_roots (roots_between scenario_A 0 10) [2; 5] /\
  pops 2 (fst (@HDRS_ctor kernel scenario_A 0 10 7 EmptyString)) =
  mkHDRS [] 7 false false (is_even_multiplicity scenario_A).
Proof.
  assert (Hs : holds_roots (roots_between scenario_A 0 10) [2; 5])
    by (vm_compute; auto).
  split; [exact Hs|].
  exact (@emptied_stack_state kernel scenario_A 0 10 7 EmptyString [2; 5] Hs).
Defined.

(** X6, at scenario A built over a member that held 7. *)
Lemma transparent_without_degeneracy_witness :
  holds_roots (roots_between scenario_A 0 10) [2; 5] /\
  Forall (fun r => is_even_multiplicity scenario_A r = false) [2; 5] /\
  sn scenario_A 0 10 <> NEGATIVE /\
  HDRS_holds (fst (@HDRS_ctor kernel scenario_A 0 10 7 EmptyString)) [2; 5] /\
  pops 1 (fst (@HDRS_ctor kernel scenario_A 0 10 7 EmptyString)) =
  mkHDRS [5] 7 false false (is_even_multiplicity scenario_A).
Proof.
  assert (Hs : holds_roots (roots_between scenario_A 0 10) [2; 5])
    by (vm_compute; auto).
  assert (Un : Forall (fun r => is_even_multiplicity scenario_A r = false) [2; 5])
    by (repeat constructor).
  assert (Pos : sn scenario_A 0 10 <> NEGATIVE)
    by (vm_compute; discriminate).
  split; [exact Hs|]. split; [exact Un|]. split; [exact Pos|].
  pose proof (@transparent_without_degeneracy kernel scenario_A 0 10 7
                EmptyString [2; 5] Hs Un Pos) as [Held Pops].
  split; [exact Held | exact (Pops 1%nat (le_S 1 1 (le_n 1%nat)))].
Defined.

(** X7, at scenario B after the call that clears the extra root. *)
Lemma kernel_stack_prints_as_wrapped_solver_witness :
  (1 <= degeneracy_count scenario_B (-1)%Z 10%Z)%nat /\
  operator_shl "roots: "%string (pops 1 (build scenario_B (-1) 10)) = "roots: 3 "%string /\
  estimate (pops 1 (build scenario_B (-1) 10)) = float_of_Z 3.
Proof.
  split; [exact (le_n 1%nat)|].
  exact (@kernel_stack_prints_as_wrapped_solver kernel scenario_B (-1) 10 0
           EmptyString "roots: "%string 1%nat (le_n 1%nat)).
Defined.

(** X8, at [(x + 1) (x - 3)^2 (x - 5)] on [(-1, 10)]. *)
Lemma reported_roots_never_go_back_witness :
  holds_roots (roots_between degenerate_double_root (-1) 10) [3; 5] /\
  adjacent later [3; 5] /\
  expensive_precondition degenerate_double_root (-1) 10 = true /\
  adjacent (later_or_flagged (is_even_multiplicity degenerate_double_root))
           [-1; 3; 3; 5].
Proof.
  assert (Hs : holds_roots (roots_between degenerate_double_root (-1) 10) [3; 5])
    by (vm_compute; auto).
  assert (Asc : adjacent later [3; 5]) by (vm_compute; auto).
  split; [exact Hs|]. split; [exact Asc|]. split; [reflexivity|].
  exact (proj2 (@reported_roots_never_go_back kernel degenerate_double_root (-1) 10 0
                  EmptyString [3; 5] Hs Asc eq_refl)).
Defined.

End Factored_traversals.
